(** * Flair and Profile collections: a shallow embedding

    The two classes of the repository, [FlairCollection] (the spec's TagStore)
    and [ProfileCollection] (the spec's ProfileStore), are embedded as
    computations in a state-and-exception monad over finite maps from document
    identifiers to schema-typed documents. *)

From stdpp Require Import gmap strings list fin_maps.

(** * JavaScript values at the interface *)

(** A parameter or object key that the caller may leave out.  [undefined] is
    what destructuring binds when the key is absent. *)
Inductive arg (A : Type) : Type :=
  | undefined
  | given (a : A).
Arguments undefined {A}.
Arguments given {A} a.

(** A destructuring default, [{ key = d }]: used only when the key is
    [undefined]. *)
Definition withDefault {A} (d : A) (v : arg A) : arg A :=
  match v with
  | undefined => given d
  | given a => given a
  end.

(** The same default for a key whose value is used without a [check]. *)
Definition default_to {A} (d : A) (v : arg A) : A :=
  match v with
  | undefined => d
  | given a => a
  end.

(** JavaScript truthiness of a parameter documented as an array: every array,
    the empty one included, is truthy; [undefined] is falsy. *)
Definition truthy {A} (v : arg (list A)) : bool :=
  match v with
  | undefined => false
  | given _ => true
  end.

(** Reading a key of a stored document, [doc.key]: [undefined] when the
    document has no such key. *)
Definition read_key {A} (o : option A) : arg A :=
  match o with
  | Some a => given a
  | None => undefined
  end.

(** Document identifiers are opaque and assigned by the storage engine. *)
Abbreviation docID := nat.

(** What [findDoc] is given: a document identifier or a name.  Identifiers
    being opaque, no value is both. *)
Inductive selector :=
  | ById (i : docID)
  | ByName (n : string).

(** * Failures *)

Inductive error :=
  | MatchError                    (* thrown by [check(value, String)] *)
  | TypeError                     (* property access on [undefined] *)
  | MeteorError (msg : string)    (* [throw new Meteor.Error(msg)] *)
  | NotDefined (k : selector).    (* the base collection's lookup failure *)

Inductive result (A : Type) : Type :=
  | Ok (a : A)
  | Error (e : error).
Arguments Ok {A} a.
Arguments Error {A} e.

(** * The monad of the methods

    A method runs against the state [S] it can reach and either returns or
    throws.  A throw keeps whatever state the method had built up to that
    point, as an exception in JavaScript does. *)

Definition M (S A : Type) : Type := S → result A * S.

Definition ret {S A} (a : A) : M S A := λ s, (Ok a, s).

Definition throw {S A} (e : error) : M S A := λ s, (Error e, s).

Definition bind {S A B} (m : M S A) (k : A → M S B) : M S B :=
  λ s, match m s with
       | (Ok a, s') => k a s'
       | (Error e, s') => (Error e, s')
       end.

Definition run {S A} (m : M S A) (s : S) : result A * S := m s.

Declare Scope meth_scope.
Delimit Scope meth_scope with meth.
Notation "x <- c1 ;; c2" := (bind c1 (λ x, c2))
  (at level 100, c1 at next level, right associativity) : meth_scope.
Notation "c1 ;; c2" := (bind c1 (λ _, c2))
  (at level 100, right associativity) : meth_scope.
Open Scope meth_scope.

(** A method of an object held in a field of a larger state. *)
Definition zoom {W S A} (get : W → S) (set : S → W → W) (m : M S A) : M W A :=
  λ w, match m (get w) with
       | (r, s') => (r, set s' w)
       end.

(** ** Library calls *)

(** [check(v, String)] of meteor/check: returns when [v] is a string and
    throws [Match.Error] otherwise.  The model hands back the string. *)
Definition check_String {S} (v : arg string) : M S string :=
  match v with
  | given s => ret s
  | undefined => throw MatchError
  end.

(** [_.each(list, f)] of underscore: calls [f] on each element in order. *)
Fixpoint each {S A} (l : list A) (f : A → M S unit) : M S unit :=
  match l with
  | [] => ret tt
  | x :: l' => f x ;; each l' f
  end.

(** [Array.prototype.map] with a callback that may throw. *)
Fixpoint mapA {S A B} (f : A → M S B) (l : list A) : M S (list B) :=
  match l with
  | [] => ret []
  | x :: l' => y <- f x ;; ys <- mapA f l' ;; ret (y :: ys)
  end.

(** [v.map(f)]: a [TypeError] when [v] is [undefined]. *)
Definition map_method {S A B} (v : arg (list A)) (f : A → M S B) : M S (list B) :=
  match v with
  | undefined => throw TypeError
  | given l => mapA f l
  end.

(** [_.uniq(array)] of underscore: keeps the first occurrence of each
    element, in order. *)
Fixpoint uniq_from (seen l : list string) : list string :=
  match l with
  | [] => []
  | x :: l' =>
      if decide (x ∈ seen) then uniq_from seen l'
      else x :: uniq_from (x :: seen) l'
  end.

Definition uniq (l : list string) : list string := uniq_from [] l.

(** [`${array}`]: the elements joined by commas. *)
Fixpoint join_comma (l : list string) : string :=
  match l with
  | [] => EmptyString
  | [x] => x
  | x :: l' => x +:+ "," +:+ join_comma l'
  end.

(** * BaseCollection *)

Module BaseCollection.
Section Base.
(** The document type of the collection, and the field [findDoc] resolves
    a name against. *)
Context {D : Type}.
Variable name_of : D → string.

(** A stored document as a query returns it: its fields and its [_id]. *)
Record doc := Doc { _id : docID; fields : D }.

(** The documents of [c] that satisfy the query [q]. *)
Definition fetch (q : D → Prop) `{∀ d, Decision (q d)} (c : gmap docID D) : list doc :=
  (λ p, Doc p.1 p.2) <$> filter (λ p, q p.2) (map_to_list c).

(** Modelled from the spec: [find(query)] of the base class, which is not
    part of the sources at hand; it yields a countable result, here the
    matching documents. *)
Definition find (q : D → Prop) `{∀ d, Decision (q d)} : M (gmap docID D) (list doc) :=
  λ c, (Ok (fetch q c), c).

(** [cursor.count()]. *)
Definition count (cursor : list doc) : nat := length cursor.

(** Modelled from the spec: the insert primitive of the storage engine; it
    stores the record under a new identifier and returns the identifier. *)
Definition insert (d : D) : M (gmap docID D) docID :=
  λ c, let i := fresh (dom c) in (Ok i, <[i := d]> c).

(** Modelled from the spec: [findDoc(idOrName)] of the base class, a record
    or a failure. *)
Definition findDoc (k : selector) : M (gmap docID D) doc :=
  match k with
  | ById i =>
      λ c, match c !! i with
           | Some d => (Ok (Doc i d), c)
           | None => (Error (NotDefined k), c)
           end
  | ByName n =>
      cursor <- find (λ d, name_of d = n) ;;
      match cursor with
      | d :: _ => ret d
      | [] => throw (NotDefined k)
      end
  end.

(** Modelled from the spec: [assertDefined(id)] of the base class, a
    failure if the identifier is absent. *)
Definition assertDefined (i : docID) : M (gmap docID D) unit :=
  λ c, match c !! i with
       | Some _ => (Ok tt, c)
       | None => (Error (NotDefined (ById i)), c)
       end.
End Base.
Arguments doc D : clear implicits.
End BaseCollection.

(** * FlairCollection *)

Module FlairCollection.
Import BaseCollection.

(** The schema of the constructor: [name] a string, [description] an
    optional string. *)
Record Flair := { name : string; description : option string }.

(** The object [define] destructures. *)
Record definition := { arg_name : arg string; arg_description : arg string }.

Abbreviation collection := (gmap docID Flair).

Definition define (a : definition) : M collection docID :=
  let name_ := arg_name a in
  let description_ := arg_description a in
  name_ <- check_String name_ ;;
  description_ <- check_String description_ ;;
  cursor <- find (λ d, name d = name_) ;;
  if (0 <? count cursor)%nat
  then throw (MeteorError (name_ +:+ " is previously defined in another FlairCollection"))
  else insert {| name := name_; description := Some description_ |}.

Definition findName (interestID : docID) : M collection string :=
  assertDefined interestID ;;
  d <- findDoc name (ById interestID) ;;
  ret (name (fields d)).

Definition findNames (interestIDs : arg (list docID)) : M collection (list string) :=
  map_method interestIDs (λ interestID, findName interestID).

Definition assertName (n : string) : M collection unit :=
  findDoc name (ByName n) ;; ret tt.

Definition assertNames (names : list string) : M collection unit :=
  each names (λ n, assertName n).

Definition findID (n : string) : M collection docID :=
  d <- findDoc name (ByName n) ;;
  ret (_id d).

Definition findIDs (names : arg (list string)) : M collection (list docID) :=
  if truthy names then map_method names (λ instance, findID instance) else ret [].

Definition dumpOne (i : docID) : M collection definition :=
  d <- findDoc name (ById i) ;;
  let name_ := name (fields d) in
  let description_ := description (fields d) in
  ret {| arg_name := given name_;
         arg_description := match description_ with
                            | Some s => given s
                            | None => undefined
                            end |}.
End FlairCollection.

(** * InterestCollection *)

Module InterestCollection.
Import BaseCollection.

(** Modelled from the spec: an interest, a named category; the source of the
    interest collection is not at hand. *)
Record Interest := { name : string }.

Abbreviation collection := (gmap docID Interest).

(** Modelled from the spec: the name assertion of the interest collection,
    whose source is not at hand; it fails if the name does not resolve to an
    existing interest. *)
Definition assertName (n : string) : M collection unit :=
  findDoc name (ByName n) ;; ret tt.

(** Modelled from the spec: [Interests.assertNames(names)], failing if any
    element does not resolve. *)
Definition assertNames (names : list string) : M collection unit :=
  each names (λ n, assertName n).
End InterestCollection.

(** * ProfileCollection *)

Module ProfileCollection.
Import BaseCollection.

(** The schema of the constructor: [username] is the one required key.  The
    keys [picture], [github], [facebook] and [instagram] hold the strings they
    are given; the URL pattern the schema puts on them belongs to the storage
    layer and is not part of this record. *)
Record Profile := {
  username : string;
  firstName : option string;
  lastName : option string;
  bio : option string;
  interests : option (list string);
  flairs : option (list string);
  title : option string;
  picture : option string;
  github : option string;
  facebook : option string;
  instagram : option string
}.

(** The object [define] destructures. *)
Record definition := {
  arg_firstName : arg string;
  arg_lastName : arg string;
  arg_username : arg string;
  arg_bio : arg string;
  arg_interests : arg (list string);
  arg_flairs : arg (list string);
  arg_picture : arg string;
  arg_title : arg string;
  arg_github : arg string;
  arg_facebook : arg string;
  arg_instagram : arg string
}.

Abbreviation collection := (gmap docID Profile).

(** The three singletons [define] touches: the imported [Interests] and
    [Flairs], and the collection of [Profiles] itself. *)
Record world := {
  Interests : InterestCollection.collection;
  Flairs : FlairCollection.collection;
  Profiles : collection
}.

Definition set_Interests (c : InterestCollection.collection) (w : world) : world :=
  {| Interests := c; Flairs := Flairs w; Profiles := Profiles w |}.

Definition set_Flairs (c : FlairCollection.collection) (w : world) : world :=
  {| Interests := Interests w; Flairs := c; Profiles := Profiles w |}.

Definition set_Profiles (c : collection) (w : world) : world :=
  {| Interests := Interests w; Flairs := Flairs w; Profiles := c |}.

Definition onInterests {A} : M InterestCollection.collection A → M world A :=
  zoom Interests set_Interests.

Definition onFlairs {A} : M FlairCollection.collection A → M world A :=
  zoom Flairs set_Flairs.

Definition this {A} : M collection A → M world A :=
  zoom Profiles set_Profiles.

Definition define (a : definition) : M world docID :=
  let firstName_ := withDefault EmptyString (arg_firstName a) in
  let lastName_ := withDefault EmptyString (arg_lastName a) in
  let username_ := arg_username a in
  let bio_ := withDefault EmptyString (arg_bio a) in
  let interests_ := default_to [] (arg_interests a) in
  let flairs_ := default_to [] (arg_flairs a) in
  let picture_ := withDefault EmptyString (arg_picture a) in
  let title_ := withDefault EmptyString (arg_title a) in
  let github_ := default_to EmptyString (arg_github a) in
  let facebook_ := default_to EmptyString (arg_facebook a) in
  let instagram_ := default_to EmptyString (arg_instagram a) in
  (* check({ firstName, lastName, username, bio, picture, title }, checkPattern) *)
  firstName_ <- check_String firstName_ ;;
  lastName_ <- check_String lastName_ ;;
  username_ <- check_String username_ ;;
  bio_ <- check_String bio_ ;;
  picture_ <- check_String picture_ ;;
  title_ <- check_String title_ ;;
  cursor <- this (find (λ d, username d = username_)) ;;
  if (0 <? count cursor)%nat
  then throw (MeteorError (username_ +:+ " is previously defined in another Profile"))
  else
    onInterests (InterestCollection.assertNames interests_) ;;
    if negb (length interests_ =? length (uniq interests_))%nat
    then throw (MeteorError (join_comma interests_ +:+ " contains duplicates"))
    else
      onFlairs (FlairCollection.assertNames flairs_) ;;
      if negb (length flairs_ =? length (uniq flairs_))%nat
      then throw (MeteorError (join_comma flairs_ +:+ " contains duplicates"))
      else
        this (insert {| firstName := Some firstName_; lastName := Some lastName_;
                        username := username_; bio := Some bio_;
                        interests := Some interests_; flairs := Some flairs_;
                        picture := Some picture_; title := Some title_;
                        github := Some github_; facebook := Some facebook_;
                        instagram := Some instagram_ |}).

(** [findDoc] is called with a document identifier; the key the base class
    would resolve a name against is taken to be [username]. *)
Definition dumpOne (i : docID) : M world definition :=
  d <- this (findDoc username (ById i)) ;;
  let firstName_ := read_key (firstName (fields d)) in
  let lastName_ := read_key (lastName (fields d)) in
  let username_ := given (username (fields d)) in
  let bio_ := read_key (bio (fields d)) in
  let interests_ := read_key (interests (fields d)) in
  let flairs_ := read_key (flairs (fields d)) in
  let picture_ := read_key (picture (fields d)) in
  let title_ := read_key (title (fields d)) in
  let github_ := read_key (github (fields d)) in
  let facebook_ := read_key (facebook (fields d)) in
  let instagram_ := read_key (instagram (fields d)) in
  ret {| arg_firstName := firstName_; arg_lastName := lastName_;
         arg_username := username_; arg_bio := bio_;
         arg_interests := interests_; arg_flairs := flairs_;
         arg_picture := picture_; arg_title := title_;
         arg_github := github_; arg_facebook := facebook_;
         arg_instagram := instagram_ |}.
End ProfileCollection.

(** * Vocabulary of the statements *)

(** A method that only reads the state it runs against. *)
Definition readonly {S A} (m : M S A) : Prop := ∀ s, (run m s).2 = s.

Section Vocabulary.
Context {D : Type} (name_of : D → string).

(** Some stored document carries the name [n]. *)
Definition named (c : gmap docID D) (n : string) : Prop :=
  map_Exists (λ _ d, name_of d = n) c.

(** No two stored documents carry the same name. *)
Definition unique_names (c : gmap docID D) : Prop :=
  ∀ i j d d', c !! i = Some d → c !! j = Some d' → name_of d = name_of d' → i = j.
End Vocabulary.

(** The states of the flair collection that calls of [define], successful or
    not, produce from the empty collection. *)
Inductive reachable : FlairCollection.collection → Prop :=
  | reachable_empty : reachable ∅
  | reachable_define c a r c' :
      reachable c → run (FlairCollection.define a) c = (r, c') → reachable c'.

(** The username [u] belongs to a stored profile. *)
Definition registered (w : ProfileCollection.world) (u : string) : Prop :=
  map_Exists (λ _ d, ProfileCollection.username d = u) (ProfileCollection.Profiles w).

(** The object [{ username: u }]. *)
Definition only_username (u : arg string) : ProfileCollection.definition :=
  {| ProfileCollection.arg_firstName := undefined;
     ProfileCollection.arg_lastName := undefined;
     ProfileCollection.arg_username := u;
     ProfileCollection.arg_bio := undefined;
     ProfileCollection.arg_interests := undefined;
     ProfileCollection.arg_flairs := undefined;
     ProfileCollection.arg_picture := undefined;
     ProfileCollection.arg_title := undefined;
     ProfileCollection.arg_github := undefined;
     ProfileCollection.arg_facebook := undefined;
     ProfileCollection.arg_instagram := undefined |}.

(** The object [{ ...a, interests: l }]. *)
Definition with_interests (l : list string) (a : ProfileCollection.definition) : ProfileCollection.definition :=
  {| ProfileCollection.arg_firstName := ProfileCollection.arg_firstName a;
     ProfileCollection.arg_lastName := ProfileCollection.arg_lastName a;
     ProfileCollection.arg_username := ProfileCollection.arg_username a;
     ProfileCollection.arg_bio := ProfileCollection.arg_bio a;
     ProfileCollection.arg_interests := given l;
     ProfileCollection.arg_flairs := ProfileCollection.arg_flairs a;
     ProfileCollection.arg_picture := ProfileCollection.arg_picture a;
     ProfileCollection.arg_title := ProfileCollection.arg_title a;
     ProfileCollection.arg_github := ProfileCollection.arg_github a;
     ProfileCollection.arg_facebook := ProfileCollection.arg_facebook a;
     ProfileCollection.arg_instagram := ProfileCollection.arg_instagram a |}.

(** The object [{ ...a, flairs: l }]. *)
Definition with_flairs (l : list string) (a : ProfileCollection.definition) : ProfileCollection.definition :=
  {| ProfileCollection.arg_firstName := ProfileCollection.arg_firstName a;
     ProfileCollection.arg_lastName := ProfileCollection.arg_lastName a;
     ProfileCollection.arg_username := ProfileCollection.arg_username a;
     ProfileCollection.arg_bio := ProfileCollection.arg_bio a;
     ProfileCollection.arg_interests := ProfileCollection.arg_interests a;
     ProfileCollection.arg_flairs := given l;
     ProfileCollection.arg_picture := ProfileCollection.arg_picture a;
     ProfileCollection.arg_title := ProfileCollection.arg_title a;
     ProfileCollection.arg_github := ProfileCollection.arg_github a;
     ProfileCollection.arg_facebook := ProfileCollection.arg_facebook a;
     ProfileCollection.arg_instagram := ProfileCollection.arg_instagram a |}.

(** The defaults of [ProfileCollection.define] as its parameter list has
    them: every key but [username]. *)
Definition code_defaults (a : ProfileCollection.definition) : ProfileCollection.definition :=
  {| ProfileCollection.arg_firstName := withDefault EmptyString (ProfileCollection.arg_firstName a);
     ProfileCollection.arg_lastName := withDefault EmptyString (ProfileCollection.arg_lastName a);
     ProfileCollection.arg_username := ProfileCollection.arg_username a;
     ProfileCollection.arg_bio := withDefault EmptyString (ProfileCollection.arg_bio a);
     ProfileCollection.arg_interests := withDefault [] (ProfileCollection.arg_interests a);
     ProfileCollection.arg_flairs := withDefault [] (ProfileCollection.arg_flairs a);
     ProfileCollection.arg_picture := withDefault EmptyString (ProfileCollection.arg_picture a);
     ProfileCollection.arg_title := withDefault EmptyString (ProfileCollection.arg_title a);
     ProfileCollection.arg_github := withDefault EmptyString (ProfileCollection.arg_github a);
     ProfileCollection.arg_facebook := withDefault EmptyString (ProfileCollection.arg_facebook a);
     ProfileCollection.arg_instagram := withDefault EmptyString (ProfileCollection.arg_instagram a) |}.

(** The defaults as the specification words them: [username], [firstName],
    [lastName], [bio], [picture] and [title] default to the empty string,
    [interests] and [flairs] to the empty sequence. *)
Definition spec_defaults (a : ProfileCollection.definition) : ProfileCollection.definition :=
  {| ProfileCollection.arg_firstName := withDefault EmptyString (ProfileCollection.arg_firstName a);
     ProfileCollection.arg_lastName := withDefault EmptyString (ProfileCollection.arg_lastName a);
     ProfileCollection.arg_username := withDefault EmptyString (ProfileCollection.arg_username a);
     ProfileCollection.arg_bio := withDefault EmptyString (ProfileCollection.arg_bio a);
     ProfileCollection.arg_interests := withDefault [] (ProfileCollection.arg_interests a);
     ProfileCollection.arg_flairs := withDefault [] (ProfileCollection.arg_flairs a);
     ProfileCollection.arg_picture := withDefault EmptyString (ProfileCollection.arg_picture a);
     ProfileCollection.arg_title := withDefault EmptyString (ProfileCollection.arg_title a);
     ProfileCollection.arg_github := ProfileCollection.arg_github a;
     ProfileCollection.arg_facebook := ProfileCollection.arg_facebook a;
     ProfileCollection.arg_instagram := ProfileCollection.arg_instagram a |}.

(** The record [ProfileCollection.define] stores for the object [a] once
    [username] has passed its check as the string [u]. *)
Definition stored_profile (a : ProfileCollection.definition) (u : string) : ProfileCollection.Profile :=
  {| ProfileCollection.username := u;
     ProfileCollection.firstName := Some (default_to EmptyString (ProfileCollection.arg_firstName a));
     ProfileCollection.lastName := Some (default_to EmptyString (ProfileCollection.arg_lastName a));
     ProfileCollection.bio := Some (default_to EmptyString (ProfileCollection.arg_bio a));
     ProfileCollection.interests := Some (default_to [] (ProfileCollection.arg_interests a));
     ProfileCollection.flairs := Some (default_to [] (ProfileCollection.arg_flairs a));
     ProfileCollection.title := Some (default_to EmptyString (ProfileCollection.arg_title a));
     ProfileCollection.picture := Some (default_to EmptyString (ProfileCollection.arg_picture a));
     ProfileCollection.github := Some (default_to EmptyString (ProfileCollection.arg_github a));
     ProfileCollection.facebook := Some (default_to EmptyString (ProfileCollection.arg_facebook a));
     ProfileCollection.instagram := Some (default_to EmptyString (ProfileCollection.arg_instagram a)) |}.

(** The three collections before anything is defined. *)
Definition empty_world : ProfileCollection.world :=
  {| ProfileCollection.Interests := ∅;
     ProfileCollection.Flairs := ∅;
     ProfileCollection.Profiles := ∅ |}.

(** The worlds that calls of [Flairs.define] and [Profiles.define],
    successful or not, produce from a world without profiles. *)
Inductive reachable_world : ProfileCollection.world → Prop :=
  | reachable_start w :
      ProfileCollection.Profiles w = ∅ → reachable_world w
  | reachable_Flairs_define w a r w' :
      reachable_world w →
      run (ProfileCollection.onFlairs (FlairCollection.define a)) w = (r, w') →
      reachable_world w'
  | reachable_Profiles_define w a r w' :
      reachable_world w →
      run (ProfileCollection.define a) w = (r, w') →
      reachable_world w'.


(** Sample data for the worked instances. *)
Definition two_tags : FlairCollection.collection :=
  <[1 := {| FlairCollection.name := "ML"; FlairCollection.description := Some "y" |}]>
    {[0 := {| FlairCollection.name := "AI"; FlairCollection.description := Some "x" |}]}.

Definition sample_world : ProfileCollection.world :=
  {| ProfileCollection.Interests := {[0 := {| InterestCollection.name := "AI" |}]};
     ProfileCollection.Flairs := two_tags;
     ProfileCollection.Profiles := ∅ |}.

(** The object [{ username: 'jdoe', interests: ['AI'], flairs: ['ML', 'AI'] }]. *)
Definition jdoe : ProfileCollection.definition :=
  with_flairs ["ML"; "AI"] (with_interests ["AI"] (only_username (given "jdoe"))).

(** [sample_world] after [Profiles.define(jdoe)]. *)
Definition jdoe_world : ProfileCollection.world :=
  ProfileCollection.set_Profiles {[0 := stored_profile jdoe "jdoe"]} sample_world.

(** [jdoe_world] after [Profiles.define({ username: 'asmith' })]. *)
Definition two_profiles_world : ProfileCollection.world :=
  ProfileCollection.set_Profiles
    (<[1 := stored_profile (only_username (given "asmith")) "asmith"]>
       {[0 := stored_profile jdoe "jdoe"]})
    sample_world.

(** * Facts about the monad and the library calls *)

Lemma run_bind {S A B} (m : M S A) (k : A → M S B) s :
  run (bind m k) s =
  match run m s with
  | (Ok a, s') => run (k a) s'
  | (Error e, s') => (Error e, s')
  end.
Proof. reflexivity. Qed.

Lemma run_bind_readonly {S A B} (m : M S A) (k : A → M S B) s :
  readonly m →
  run (bind m k) s =
  match (run m s).1 with
  | Ok a => run (k a) s
  | Error e => (Error e, s)
  end.
Proof.
  intros Hm. rewrite run_bind. specialize (Hm s).
  destruct (run m s) as [[a|e] s']; simpl in *; by subst.
Qed.

Lemma readonly_ret {S A} (a : A) : readonly (@ret S A a).
Proof. by intros s. Qed.

Lemma readonly_throw {S A} e : readonly (@throw S A e).
Proof. by intros s. Qed.

Lemma readonly_bind {S A B} (m : M S A) (k : A → M S B) :
  readonly m → (∀ a, readonly (k a)) → readonly (bind m k).
Proof.
  intros Hm Hk s. rewrite run_bind_readonly by done.
  destruct (run m s).1; [apply Hk | done].
Qed.

Lemma readonly_each {S A} (f : A → M S unit) l :
  (∀ x, readonly (f x)) → readonly (each l f).
Proof.
  intros Hf. induction l as [|x l IH]; simpl.
  - apply readonly_ret.
  - apply readonly_bind; [apply Hf | by intros _].
Qed.

Lemma readonly_mapA {S A B} (f : A → M S B) l :
  (∀ x, readonly (f x)) → readonly (mapA f l).
Proof.
  intros Hf. induction l as [|x l IH]; simpl.
  - apply readonly_ret.
  - apply readonly_bind; [apply Hf | intros y].
    apply readonly_bind; [done | intros ys; apply readonly_ret].
Qed.

Lemma bind_ret {S A B} (a : A) (k : A → M S B) : bind (ret a) k = k a.
Proof. reflexivity. Qed.

Lemma bind_throw {S A B} e (k : A → M S B) : bind (throw e) k = throw e.
Proof. reflexivity. Qed.

Lemma check_withDefault {S} d v :
  @check_String S (withDefault d v) = ret (default_to d v).
Proof. by destruct v. Qed.

Lemma default_withDefault {A} (d : A) v : default_to d (withDefault d v) = default_to d v.
Proof. by destruct v. Qed.

Lemma readonly_check_String {S} v : readonly (@check_String S v).
Proof. destruct v; [apply readonly_throw | apply readonly_ret]. Qed.

Lemma readonly_zoom {W S A} (get : W → S) (set : S → W → W) (m : M S A) :
  (∀ w, set (get w) w = w) → readonly m → readonly (zoom get set m).
Proof.
  intros Hlens Hm w. specialize (Hm (get w)). unfold run, zoom in *.
  destruct (m (get w)) as [r s']; simpl in *. by subst.
Qed.

Lemma run_zoom_readonly {W S A} (get : W → S) (set : S → W → W) (m : M S A) w :
  (∀ w, set (get w) w = w) → readonly m →
  run (zoom get set m) w = ((run m (get w)).1, w).
Proof.
  intros Hlens Hm. specialize (Hm (get w)). unfold run, zoom in *.
  destruct (m (get w)) as [r s']; simpl in *. subst. by rewrite Hlens.
Qed.

Create HintDb readonly.
#[local] Hint Resolve readonly_ret readonly_throw readonly_bind readonly_each
  readonly_mapA readonly_check_String : readonly.

(** [_.uniq] drops nothing exactly when the array has no repetition. *)
Lemma uniq_from_length seen l : length (uniq_from seen l) ≤ length l.
Proof.
  revert seen. induction l as [|x l IH]; intros seen; simpl; [lia|].
  case_decide; simpl.
  - specialize (IH seen). lia.
  - specialize (IH (x :: seen)). lia.
Qed.

Lemma uniq_from_same seen l :
  length (uniq_from seen l) = length l ↔ NoDup l ∧ ∀ x, x ∈ l → x ∉ seen.
Proof.
  revert seen. induction l as [|x l IH]; intros seen; simpl.
  - split; [intros _; split; [constructor | by intros x ?%elem_of_nil] | done].
  - case_decide as Hx.
    + pose proof (uniq_from_length seen l). split; [lia|].
      intros [_ Hseen]. destruct (Hseen x); [left | done].
    + simpl. rewrite NoDup_cons. split.
      * intros Hlen. apply (inj S), IH in Hlen as [Hnd Hseen]. repeat split; [|done|].
        -- intros Hin. apply (Hseen x Hin). left.
        -- intros y [->|Hy]%elem_of_cons; [done|].
           intros Hin. apply (Hseen y Hy). by right.
      * intros [[Hxl Hnd] Hseen]. f_equal. apply IH. split; [done|].
        intros y Hy [->|Hin]%elem_of_cons; [done|].
        apply (Hseen y); [by right | done].
Qed.

Lemma uniq_length_NoDup l : length l = length (uniq l) ↔ NoDup l.
Proof.
  unfold uniq. split.
  - intros Hlen. symmetry in Hlen. by apply uniq_from_same in Hlen as [? _].
  - intros Hnd. symmetry. apply uniq_from_same. split; [done|].
    by intros x _ ?%elem_of_nil.
Qed.

Lemma duplicates_test l :
  negb (length l =? length (uniq l)) = true ↔ ¬ NoDup l.
Proof.
  rewrite <- uniq_length_NoDup, negb_true_iff, Nat.eqb_neq. done.
Qed.

(** * Facts about the base collection *)

Section BaseFacts.
Import BaseCollection.
Context {D : Type} (name_of : D → string).
Implicit Types (c : gmap docID D) (i j : docID) (d : D) (n : string).

Lemma elem_of_fetch (q : D → Prop) `{∀ d, Decision (q d)} c i d :
  Doc i d ∈ fetch q c ↔ c !! i = Some d ∧ q d.
Proof.
  unfold fetch. rewrite list_elem_of_fmap. split.
  - intros [[j d'] [Heq Hin]]. simpl in Heq. injection Heq as -> ->.
    apply list_elem_of_filter in Hin as [Hq Hin].
    by apply elem_of_map_to_list in Hin.
  - intros [Hi Hq]. exists (i, d). split; [done|].
    apply list_elem_of_filter. split; [done|]. by apply elem_of_map_to_list.
Qed.

Lemma fetch_nil (q : D → Prop) `{∀ d, Decision (q d)} c :
  fetch q c = [] ↔ ∀ i d, c !! i = Some d → ¬ q d.
Proof.
  split.
  - intros Hnil i d Hi Hq.
    assert (Doc i d ∈ fetch q c) as Hin by by apply elem_of_fetch.
    rewrite Hnil in Hin. by apply elem_of_nil in Hin.
  - intros Hno. destruct (fetch q c) as [|[i d] l] eqn:E; [done|].
    assert (Doc i d ∈ fetch q c) as Hin by (rewrite E; left).
    apply elem_of_fetch in Hin as [Hi Hq]. by destruct (Hno i d).
Qed.

Lemma count_positive (q : D → Prop) `{∀ d, Decision (q d)} c :
  (0 <? count (fetch q c)) = true ↔ map_Exists (λ _ d, q d) c.
Proof.
  unfold count. rewrite Nat.ltb_lt. split.
  - destruct (fetch q c) as [|[i d] l] eqn:E; simpl; [lia|]. intros _.
    assert (Doc i d ∈ fetch q c) as Hin by (rewrite E; left).
    apply elem_of_fetch in Hin as [Hi Hq]. by exists i, d.
  - intros (i & d & Hi & Hq).
    assert (Doc i d ∈ fetch q c) as Hin by by apply elem_of_fetch.
    destruct (fetch q c); simpl; [by apply elem_of_nil in Hin | lia].
Qed.

Lemma count_zero (q : D → Prop) `{∀ d, Decision (q d)} c :
  (0 <? count (fetch q c)) = false ↔ ¬ map_Exists (λ _ d, q d) c.
Proof. rewrite <- count_positive. symmetry. apply not_true_iff_false. Qed.

Lemma count_named c n :
  (0 <? count (fetch (λ d, name_of d = n) c)) = true ↔ named name_of c n.
Proof. apply count_positive. Qed.

Lemma count_unnamed c n :
  (0 <? count (fetch (λ d, name_of d = n) c)) = false ↔ ¬ named name_of c n.
Proof. apply count_zero. Qed.

Lemma readonly_find (q : D → Prop) `{∀ d, Decision (q d)} : readonly (find q).
Proof. by intros c. Qed.

Lemma readonly_findDoc k : readonly (findDoc name_of k).
Proof.
  destruct k as [i|n]; simpl.
  - intros c. unfold run. by destruct (c !! i).
  - apply readonly_bind; [apply readonly_find|].
    intros [|d l]; [apply readonly_throw | apply readonly_ret].
Qed.

Lemma readonly_assertDefined i : readonly (@assertDefined D i).
Proof. intros c. unfold run, assertDefined. by destruct (c !! i). Qed.

(** The new identifier is one the collection does not use. *)
Lemma insert_fresh d c : c !! fresh (dom c) = None.
Proof. apply not_elem_of_dom, is_fresh. Qed.

(** A name no document carries does not resolve. *)
Lemma findDoc_unnamed c n :
  ¬ named name_of c n →
  run (findDoc name_of (ByName n)) c = (Error (NotDefined (ByName n)), c).
Proof.
  intros Hno. unfold findDoc, find, run, bind.
  assert (fetch (λ d, name_of d = n) c = []) as ->; [|done].
  apply fetch_nil. intros i d Hi Hq. apply Hno. by exists i, d.
Qed.

(** A name some document carries resolves to a document carrying it. *)
Lemma findDoc_named c n :
  named name_of c n →
  ∃ i d, run (findDoc name_of (ByName n)) c = (Ok (Doc i d), c) ∧
         c !! i = Some d ∧ name_of d = n.
Proof.
  intros Hn. unfold findDoc, find, run, bind.
  destruct (fetch (λ d, name_of d = n) c) as [|[i d] l] eqn:E.
  - destruct Hn as (i & d & Hi & Hq).
    eapply fetch_nil in E; [by destruct E | done].
  - assert (Doc i d ∈ fetch (λ d, name_of d = n) c) as Hin by (rewrite E; left).
    apply elem_of_fetch in Hin as [Hi Hq]. by exists i, d.
Qed.

(** Under unique names, the name of a stored document resolves to that very
    document. *)
Lemma findDoc_unique c i d :
  unique_names name_of c → c !! i = Some d →
  run (findDoc name_of (ByName (name_of d))) c = (Ok (Doc i d), c).
Proof.
  intros Huniq Hi.
  destruct (findDoc_named c (name_of d)) as (j & d' & Hrun & Hj & Hname).
  { by exists i, d. }
  assert (j = i) as -> by by eapply Huniq.
  rewrite Hrun. congruence.
Qed.

Lemma findDoc_ById c i :
  run (findDoc name_of (ById i)) c =
  match c !! i with
  | Some d => (Ok (Doc i d), c)
  | None => (Error (NotDefined (ById i)), c)
  end.
Proof. reflexivity. Qed.
End BaseFacts.

#[local] Hint Resolve readonly_find readonly_findDoc readonly_assertDefined : readonly.

(** * Facts about name assertions *)

Section AssertFacts.
Import BaseCollection.
Context {D : Type} (name_of : D → string).
Implicit Types (c : gmap docID D) (n : string).

(** The body shared by the [assertName] methods of the collections. *)
Local Abbreviation assertName := (λ n, findDoc name_of (ByName n) ;; ret tt).

Lemma readonly_each_assert names : readonly (each names assertName).
Proof. eauto with readonly. Qed.

Lemma each_assert_named c names :
  Forall (named name_of c) names → run (each names assertName) c = (Ok tt, c).
Proof.
  induction 1 as [|n names Hn _ IH]; cbn [each]; [done|].
  destruct (findDoc_named name_of c n Hn) as (i & d & Hrun & _).
  by rewrite !run_bind, Hrun.
Qed.

Lemma each_assert_unnamed c names :
  ¬ Forall (named name_of c) names →
  ∃ n, n ∈ names ∧ ¬ named name_of c n ∧
       run (each names assertName) c = (Error (NotDefined (ByName n)), c).
Proof.
  induction names as [|n names IH]; intros Hno; [by destruct Hno|].
  cbn [each]. rewrite !run_bind.
  destruct (decide (named name_of c n)) as [Hn|Hn].
  - destruct (findDoc_named name_of c n Hn) as (i & d & -> & _).
    destruct IH as (m & Hm & Hnom & Hrun).
    { intros Hall. apply Hno. by constructor. }
    exists m. unfold run, ret at 1. fold (run (each names assertName) c).
    rewrite Hrun. repeat split; [by right | done].
  - exists n. rewrite (findDoc_unnamed name_of c n Hn).
    repeat split; [left | done].
Qed.
End AssertFacts.

(** * Facts about FlairCollection *)

Section FlairFacts.
Import BaseCollection FlairCollection.
Implicit Types (c : collection) (i j : docID) (n s : string).

Lemma define_strings n s c :
  run (define {| arg_name := given n; arg_description := given s |}) c =
  if (0 <? count (fetch (λ d, name d = n) c))%nat
  then (Error (MeteorError (n +:+ " is previously defined in another FlairCollection")), c)
  else (Ok (fresh (dom c)),
        <[fresh (dom c) := {| name := n; description := Some s |}]> c).
Proof. unfold define, run, bind, find; simpl. by destruct (0 <? _)%nat. Qed.

Lemma define_absent_name v c :
  run (define {| arg_name := undefined; arg_description := v |}) c = (Error MatchError, c).
Proof. reflexivity. Qed.

Lemma define_absent_description v c :
  run (define {| arg_name := v; arg_description := undefined |}) c = (Error MatchError, c).
Proof. by destruct v. Qed.

(** Whatever [define] is given, it either leaves the collection alone or adds
    one document whose name no stored document carried. *)
Lemma define_step a c r c' :
  run (define a) c = (r, c') →
  c' = c ∨
  ∃ n s, ¬ named name c n ∧ r = Ok (fresh (dom c)) ∧
         c' = <[fresh (dom c) := {| name := n; description := Some s |}]> c.
Proof.
  destruct a as [[|n] [|s]].
  1-3: rewrite ?define_absent_name, ?define_absent_description; left; congruence.
  rewrite define_strings.
  destruct (0 <? _)%nat eqn:E; intros [= <- <-]; [by left|].
  right. exists n, s. by apply (count_unnamed name) in E.
Qed.

(** The lookups only read the collection. *)
Lemma readonly_findName i : readonly (findName i).
Proof. unfold findName. eauto with readonly. Qed.

Lemma readonly_findID n : readonly (findID n).
Proof. unfold findID. eauto with readonly. Qed.

Lemma readonly_findNames ids : readonly (findNames ids).
Proof. destruct ids; simpl; eauto using readonly_findName with readonly. Qed.

Lemma readonly_findIDs names : readonly (findIDs names).
Proof.
  destruct names as [|names]; [apply readonly_ret|].
  apply readonly_mapA, readonly_findID.
Qed.

Lemma readonly_assertNames names : readonly (assertNames names).
Proof. unfold assertNames, assertName. eauto with readonly. Qed.

Lemma readonly_dumpOne i : readonly (dumpOne i).
Proof. unfold dumpOne. eauto with readonly. Qed.

Lemma findName_defined c i d :
  c !! i = Some d → run (findName i) c = (Ok (name d), c).
Proof. intros Hi. unfold findName, assertDefined, findDoc, run, bind. by rewrite !Hi. Qed.

Lemma findName_undefined c i :
  c !! i = None → run (findName i) c = (Error (NotDefined (ById i)), c).
Proof. intros Hi. unfold findName, assertDefined, findDoc, run, bind. by rewrite !Hi. Qed.

Lemma findID_named c n :
  named name c n →
  ∃ i d, run (findID n) c = (Ok i, c) ∧ c !! i = Some d ∧ name d = n.
Proof.
  intros (i & d & Hrun & Hi & Hn)%findDoc_named. exists i, d.
  unfold findID. rewrite run_bind, Hrun. done.
Qed.

Lemma findID_unnamed c n :
  ¬ named name c n → run (findID n) c = (Error (NotDefined (ByName n)), c).
Proof.
  intros Hrun%findDoc_unnamed. unfold findID. by rewrite run_bind, Hrun.
Qed.

Lemma findID_unique c i d :
  unique_names name c → c !! i = Some d → run (findID (name d)) c = (Ok i, c).
Proof.
  intros Hu Hi. unfold findID. by rewrite run_bind, (findDoc_unique name c i d).
Qed.





Lemma define_preserves_unique a c r c' :
  unique_names name c → run (define a) c = (r, c') → unique_names name c'.
Proof.
  intros Hu [->|(n & s & Hfresh & _ & ->)]%define_step; [done|].
  pose proof (insert_fresh {| name := n; description := Some s |} c) as Hnew.
  intros i j d d' [[<- <-]|[? Hi]]%lookup_insert_Some
    [[<- <-]|[? Hj]]%lookup_insert_Some Hname; simpl in *.
  - done.
  - destruct Hfresh. by exists j, d'.
  - destruct Hfresh. by exists i, d.
  - by eapply Hu.
Qed.
End FlairFacts.

(** * Worked examples *)

Section Examples.
Import BaseCollection.

Example uniq_keeps_first_occurrences :
  uniq ["a"; "b"; "a"; "c"; "b"] = ["a"; "b"; "c"].
Proof. reflexivity. Qed.

Example join_comma_three : join_comma ["a"; "b"; "c"] = "a,b,c".
Proof. reflexivity. Qed.

(** Defining "AI" twice: the second call fails and the first tag stays. *)
Example define_twice :
  let a := {| FlairCollection.arg_name := given "AI";
              FlairCollection.arg_description := given "Artificial intelligence" |} in
  run (FlairCollection.define a ;; FlairCollection.define a) ∅ =
  (Error (MeteorError "AI is previously defined in another FlairCollection"),
   {[0 := {| FlairCollection.name := "AI";
             FlairCollection.description := Some "Artificial intelligence" |}]}).
Proof. vm_compute. reflexivity. Qed.

(** Two tags, looked up in both directions. *)
Example lookups_in_order :
  let c : FlairCollection.collection :=
    <[1 := {| FlairCollection.name := "ML"; FlairCollection.description := Some "y" |}]>
      {[0 := {| FlairCollection.name := "AI"; FlairCollection.description := None |}]} in
  run (FlairCollection.findIDs (given ["ML"; "AI"; "ML"])) c = (Ok [1; 0; 1], c) ∧
  run (FlairCollection.findNames (given [0; 1])) c = (Ok ["AI"; "ML"], c) ∧
  run (FlairCollection.findNames (given [0; 2])) c = (Error (NotDefined (ById 2)), c) ∧
  run (FlairCollection.findIDs (given ["AI"; "Go"])) c = (Error (NotDefined (ByName "Go")), c).
Proof. vm_compute. done. Qed.

(** A profile whose flair is not a stored tag is refused. *)
Example define_unknown_flair :
  run (ProfileCollection.define (with_flairs ["Unknown"] (only_username (given "jdoe"))))
      empty_world =
  (Error (NotDefined (ByName "Unknown")), empty_world).
Proof. vm_compute. reflexivity. Qed.

(** A second profile under a registered username is refused. *)
Example define_username_twice :
  let a := only_username (given "jdoe") in
  (run (ProfileCollection.define a ;; ProfileCollection.define a) empty_world).1 =
  Error (MeteorError "jdoe is previously defined in another Profile").
Proof. vm_compute. reflexivity. Qed.
End Examples.

(** * The tag store *)

Section TagStore.
Import BaseCollection FlairCollection.
Implicit Types (c : collection) (i j : docID) (n s : string).

(** C1. In every state of the tag store, [define] fails, leaving the store as
    it was, when a stored tag carries the name: with the "previously defined"
    error when the description is a string, and whatever the description is.
    When no stored tag carries the name and the description is a string, it
    stores the record under a new identifier and returns that identifier,
    after which [findID] of the name returns the identifier and [findName] of
    the identifier returns the name.  When the description is left out, the
    call fails with a match error even though the name is unused, and stores
    nothing. *)
Theorem C1_define_rejects_or_retrievable c n s :
  let a := {| arg_name := given n; arg_description := given s |} in
  (named name c n →
   run (define a) c =
   (Error (MeteorError (n +:+ " is previously defined in another FlairCollection")), c) ∧
   ∀ v, ∃ e, run (define {| arg_name := given n; arg_description := v |}) c = (Error e, c)) ∧
  (¬ named name c n →
   ∃ i, c !! i = None ∧
     let c' := <[i := {| name := n; description := Some s |}]> c in
     run (define a) c = (Ok i, c') ∧
     run (findID n) c' = (Ok i, c') ∧
     run (findName i) c' = (Ok n, c')) ∧
  (¬ named name c n →
   run (define {| arg_name := given n; arg_description := undefined |}) c =
   (Error MatchError, c)).
Proof.
  intros a. unfold a. rewrite define_strings.
  split; [|split; [|intros _; apply define_absent_description]].
  - intros Hn. apply (count_named name) in Hn as Hcount. rewrite Hcount.
    split; [done|]. intros [|s']; [by exists MatchError|].
    rewrite define_strings, Hcount. by eexists.
  - intros Hn. pose proof Hn as ->%(count_unnamed name).
    set (i := fresh (dom c)). set (t := {| name := n; description := Some s |}).
    assert (c !! i = None) as Hi by apply (insert_fresh t).
    exists i. split; [done|]. simpl. split; [done|]. split.
    + destruct (findID_named (<[i:=t]> c) n) as (j & d & Hrun & Hj & Hname).
      { exists i, t. by rewrite lookup_insert_eq. }
      apply lookup_insert_Some in Hj as [[<- _]|[_ Hj]]; [done|].
      destruct Hn. by exists j, d.
    + apply (findName_defined _ i t), lookup_insert_eq.
Qed.

Lemma C1_witness :
  (named name {[0 := {| name := "AI"; description := Some "x" |}]} "AI" ∧
   run (define {| arg_name := given "AI"; arg_description := given "y" |})
       {[0 := {| name := "AI"; description := Some "x" |}]} =
   (Error (MeteorError "AI is previously defined in another FlairCollection"),
    {[0 := {| name := "AI"; description := Some "x" |}]}) ∧
   ∀ v, ∃ e, run (define {| arg_name := given "AI"; arg_description := v |})
                 {[0 := {| name := "AI"; description := Some "x" |}]} =
             (Error e, {[0 := {| name := "AI"; description := Some "x" |}]})) ∧
  (¬ named name (∅ : collection) "AI" ∧
   ∃ i, (∅ : collection) !! i = None ∧
     let c' := <[i := {| name := "AI"; description := Some "x" |}]> ∅ in
     run (define {| arg_name := given "AI"; arg_description := given "x" |}) ∅ = (Ok i, c') ∧
     run (findID "AI") c' = (Ok i, c') ∧
     run (findName i) c' = (Ok "AI", c')) ∧
  (¬ named name (∅ : collection) "AI" ∧
   run (define {| arg_name := given "AI"; arg_description := undefined |}) ∅ =
   (Error MatchError, ∅)).
Proof.
  assert (named name {[0 := {| name := "AI"; description := Some "x" |}]} "AI") as Hin.
  { exists 0, {| name := "AI"; description := Some "x" |}. split; reflexivity. }
  assert (¬ named name (∅ : collection) "AI") as Hout by apply map_Exists_empty.
  split; [|split]; (split; [assumption|]).
  - exact (proj1 (C1_define_rejects_or_retrievable _ "AI" "y") Hin).
  - exact (proj1 (proj2 (C1_define_rejects_or_retrievable ∅ "AI" "x")) Hout).
  - exact (proj2 (proj2 (C1_define_rejects_or_retrievable ∅ "AI" "x")) Hout).
Defined.

(** C3. [define] does not accept an absent description: whatever the state
    and the name, the call stops at [check(description, String)] with a match
    error and stores nothing. *)
Theorem C3_define_absent_description_fails c n :
  run (define {| arg_name := given n; arg_description := undefined |}) c =
  (Error MatchError, c).
Proof. apply define_absent_description. Qed.

(** C5. The object [dumpOne] returns for a stored tag, given back to
    [define] under a name no stored tag carries, stores a tag with the same
    description when the original has one, and is refused with a match error
    when the original has none. *)
Theorem C5_dumpOne_define c i t n :
  c !! i = Some t → ¬ named name c n →
  run (d <- dumpOne i ;;
       define {| arg_name := given n; arg_description := arg_description d |}) c =
  match description t with
  | Some s =>
      (Ok (fresh (dom c)),
       <[fresh (dom c) := {| name := n; description := Some s |}]> c)
  | None => (Error MatchError, c)
  end.
Proof.
  intros Hi Hn. rewrite run_bind. unfold dumpOne.
  rewrite run_bind, findDoc_ById, Hi. simpl.
  destruct (description t) as [s|]; unfold ret.
  - change (run (define {| arg_name := given n; arg_description := given s |}) c = 
            (Ok (fresh (dom c)),
             <[fresh (dom c) := {| name := n; description := Some s |}]> c)).
    rewrite define_strings. by apply (count_unnamed name) in Hn as ->.
  - apply define_absent_description.
Qed.

Lemma C5_witness :
  let c := {[0 := {| name := "AI"; description := None |}]} in
  c !! 0 = Some {| name := "AI"; description := None |} ∧
  ¬ named name c "ML" ∧
  run (d <- dumpOne 0 ;;
       define {| arg_name := given "ML"; arg_description := arg_description d |}) c =
  (Error MatchError, c).
Proof.
  assert (¬ named name ({[0 := {| name := "AI"; description := None |}]} : collection) "ML")
    as Hn.
  { intros (i & d & [_ <-]%lookup_singleton_Some & Hd). discriminate Hd. }
  split; [reflexivity|]. split; [exact Hn|].
  exact (C5_dumpOne_define {[0 := {| name := "AI"; description := None |}]} 0
           {| name := "AI"; description := None |} "ML" eq_refl Hn).
Defined.
End TagStore.

(** * Lookups in the tag store *)

Section TagLookups.
Import BaseCollection FlairCollection.
Implicit Types (c : collection) (i j : docID) (n s : string).



(** C8. In every state that calls of [define] produce from the empty store,
    no two stored tags carry the same name. *)
Theorem C8_reachable_unique_names c : reachable c → unique_names name c.
Proof.
  induction 1 as [|c a r c' _ IH Hrun].
  - intros i j d d' Hi. by rewrite lookup_empty in Hi.
  - by eapply define_preserves_unique.
Qed.

Lemma C8_witness :
  let c : collection :=
    <[1 := {| name := "ML"; description := Some "y" |}]>
      {[0 := {| name := "AI"; description := Some "x" |}]} in
  reachable c ∧ unique_names name c.
Proof.
  intros c.
  assert (reachable c) as Hreach.
  { apply (reachable_define c {| arg_name := given "AI"; arg_description := given "z" |}
             (Error (MeteorError "AI is previously defined in another FlairCollection")));
      [|vm_compute; reflexivity].
    apply (reachable_define {[0 := {| name := "AI"; description := Some "x" |}]}
             {| arg_name := given "ML"; arg_description := given "y" |}
             (Ok 1)); [|vm_compute; reflexivity].
    apply (reachable_define ∅ {| arg_name := given "AI"; arg_description := given "x" |}
             (Ok 0)); [|vm_compute; reflexivity].
    apply reachable_empty. }
  split; [exact Hreach|]. exact (C8_reachable_unique_names c Hreach).
Defined.

(** C9. [findNames] of an absent argument fails, with a type error, where
    [findIDs] of an absent argument returns the empty sequence; [findNames]
    of the empty list returns the empty sequence. *)
Theorem C9_findNames_needs_a_list c :
  run (findNames undefined) c = (Error TypeError, c) ∧
  run (findIDs undefined) c = (Ok [], c) ∧
  run (findNames (given [])) c = (Ok [], c).
Proof. done. Qed.


End TagLookups.

(** * Facts about ProfileCollection *)

Section ProfileFacts.
Import BaseCollection ProfileCollection.
Implicit Types (w : world) (a : definition) (u : string).

Lemma set_Interests_id w : set_Interests (Interests w) w = w.
Proof. by destruct w. Qed.

Lemma set_Flairs_id w : set_Flairs (Flairs w) w = w.
Proof. by destruct w. Qed.

Lemma set_Profiles_id w : set_Profiles (Profiles w) w = w.
Proof. by destruct w. Qed.

Lemma run_this_find (q : Profile → Prop) `{∀ d, Decision (q d)} w :
  run (this (find q)) w = (Ok (fetch q (Profiles w)), w).
Proof. unfold this, zoom, find, run. by rewrite set_Profiles_id. Qed.

Lemma run_Interests_assertNames names w :
  run (onInterests (InterestCollection.assertNames names)) w =
  ((run (InterestCollection.assertNames names) (Interests w)).1, w).
Proof.
  apply run_zoom_readonly; [apply set_Interests_id|].
  apply (readonly_each_assert InterestCollection.name).
Qed.

Lemma run_Flairs_assertNames names w :
  run (onFlairs (FlairCollection.assertNames names)) w =
  ((run (FlairCollection.assertNames names) (Flairs w)).1, w).
Proof.
  apply run_zoom_readonly; [apply set_Flairs_id|].
  apply (readonly_each_assert FlairCollection.name).
Qed.

Lemma define_absent_username a w :
  arg_username a = undefined → run (define a) w = (Error MatchError, w).
Proof.
  intros Hu. unfold define.
  rewrite check_withDefault, bind_ret. cbv beta.
  rewrite check_withDefault, bind_ret. cbv beta.
  by rewrite Hu.
Qed.

(** [define] laid out as its sequence of tests. *)
Lemma define_run a u w :
  arg_username a = given u →
  let interests_ := default_to [] (arg_interests a) in
  let flairs_ := default_to [] (arg_flairs a) in
  run (define a) w =
  if (0 <? count (fetch (λ d, username d = u) (Profiles w)))%nat
  then (Error (MeteorError (u +:+ " is previously defined in another Profile")), w)
  else
    match (run (InterestCollection.assertNames interests_) (Interests w)).1 with
    | Error e => (Error e, w)
    | Ok _ =>
        if negb (length interests_ =? length (uniq interests_))%nat
        then (Error (MeteorError (join_comma interests_ +:+ " contains duplicates")), w)
        else
          match (run (FlairCollection.assertNames flairs_) (Flairs w)).1 with
          | Error e => (Error e, w)
          | Ok _ =>
              if negb (length flairs_ =? length (uniq flairs_))%nat
              then (Error (MeteorError (join_comma flairs_ +:+ " contains duplicates")), w)
              else (Ok (fresh (dom (Profiles w))),
                    set_Profiles
                      (<[fresh (dom (Profiles w)) := stored_profile a u]> (Profiles w)) w)
          end
    end.
Proof.
  intros Hu. simpl. unfold define.
  rewrite check_withDefault, bind_ret. cbv beta.
  rewrite check_withDefault, bind_ret. cbv beta.
  rewrite Hu. simpl check_String. rewrite bind_ret. cbv beta.
  rewrite check_withDefault, bind_ret. cbv beta.
  rewrite check_withDefault, bind_ret. cbv beta.
  rewrite check_withDefault, bind_ret. cbv beta.
  rewrite run_bind, run_this_find.
  destruct (0 <? _)%nat; [done|].
  rewrite run_bind, run_Interests_assertNames.
  destruct (run (InterestCollection.assertNames _) _).1; [|done].
  destruct (negb (_ =? _)%nat); [done|].
  rewrite run_bind, run_Flairs_assertNames.
  destruct (run (FlairCollection.assertNames _) _).1; [|done].
  destruct (negb (_ =? _)%nat); [done|].
  reflexivity.
Qed.

Lemma Interests_assertNames_named w l :
  Forall (named InterestCollection.name (Interests w)) l →
  (run (InterestCollection.assertNames l) (Interests w)).1 = Ok tt.
Proof.
  intros Hrun%each_assert_named.
  unfold InterestCollection.assertNames, InterestCollection.assertName.
  by rewrite Hrun.
Qed.

Lemma Interests_assertNames_unnamed w l :
  ¬ Forall (named InterestCollection.name (Interests w)) l →
  ∃ n, n ∈ l ∧ ¬ named InterestCollection.name (Interests w) n ∧
       (run (InterestCollection.assertNames l) (Interests w)).1 =
       Error (NotDefined (ByName n)).
Proof.
  intros (n & Hn & Hno & Hrun)%each_assert_unnamed. exists n.
  unfold InterestCollection.assertNames, InterestCollection.assertName.
  by rewrite Hrun.
Qed.

Lemma Flairs_assertNames_named w l :
  Forall (named FlairCollection.name (Flairs w)) l →
  (run (FlairCollection.assertNames l) (Flairs w)).1 = Ok tt.
Proof.
  intros Hrun%each_assert_named.
  unfold FlairCollection.assertNames, FlairCollection.assertName.
  by rewrite Hrun.
Qed.

Lemma Flairs_assertNames_unnamed w l :
  ¬ Forall (named FlairCollection.name (Flairs w)) l →
  ∃ n, n ∈ l ∧ ¬ named FlairCollection.name (Flairs w) n ∧
       (run (FlairCollection.assertNames l) (Flairs w)).1 =
       Error (NotDefined (ByName n)).
Proof.
  intros (n & Hn & Hno & Hrun)%each_assert_unnamed. exists n.
  unfold FlairCollection.assertNames, FlairCollection.assertName.
  by rewrite Hrun.
Qed.

Lemma count_registered w u :
  (0 <? count (fetch (λ d, username d = u) (Profiles w)))%nat = true ↔ registered w u.
Proof. apply count_positive. Qed.

Lemma count_unregistered w u :
  (0 <? count (fetch (λ d, username d = u) (Profiles w)))%nat = false ↔ ¬ registered w u.
Proof. apply count_zero. Qed.

Lemma no_duplicates l : NoDup l → negb (length l =? length (uniq l))%nat = false.
Proof.
  intros Hnd. apply not_true_iff_false. by intros ?%duplicates_test.
Qed.
End ProfileFacts.

(** * The profile store *)

Section ProfileStore.
Import BaseCollection ProfileCollection.
Implicit Types (w : world) (a : definition) (u : string).



(** C4. In [define], [firstName], [lastName], [bio], [picture], [title] (and
    [github], [facebook], [instagram]) default to the empty string and
    [interests] and [flairs] to the empty sequence when absent; [username] has
    no default, and a call without it fails the check; a call that supplies
    only a username no profile has succeeds and stores those defaults. *)
Theorem C4_define_defaults :
  (∀ a w, run (define a) w = run (define (code_defaults a)) w) ∧
  (∀ a w, arg_username a = undefined → run (define a) w = (Error MatchError, w)) ∧
  (∀ u w, ¬ registered w u →
     ∃ i, Profiles w !! i = None ∧
          run (define (only_username (given u))) w =
          (Ok i,
           set_Profiles
             (<[i := {| username := u; firstName := Some EmptyString;
                        lastName := Some EmptyString; bio := Some EmptyString;
                        interests := Some []; flairs := Some [];
                        title := Some EmptyString; picture := Some EmptyString;
                        github := Some EmptyString; facebook := Some EmptyString;
                        instagram := Some EmptyString |}]> (Profiles w)) w)).
Proof.
  split; [|split].
  - intros a w. destruct (arg_username a) as [|u] eqn:Hu.
    + by rewrite !define_absent_username.
    + rewrite (define_run a u w Hu), (define_run (code_defaults a) u w Hu).
      unfold stored_profile. simpl. by rewrite !default_withDefault.
  - apply define_absent_username.
  - intros u w Hfree.
    exists (fresh (dom (Profiles w))).
    split; [apply (insert_fresh (stored_profile (only_username (given u)) u))|].
    rewrite (define_run (only_username (given u)) u w eq_refl). simpl.
    by apply count_unregistered in Hfree as ->.
Qed.

Lemma C4_witness :
  (arg_username (only_username undefined) = undefined ∧
   run (define (only_username undefined)) empty_world = (Error MatchError, empty_world)) ∧
  (¬ registered empty_world "jdoe" ∧
   ∃ i, Profiles empty_world !! i = None ∧
        run (define (only_username (given "jdoe"))) empty_world =
        (Ok i,
         set_Profiles
           (<[i := {| username := "jdoe"; firstName := Some EmptyString;
                      lastName := Some EmptyString; bio := Some EmptyString;
                      interests := Some []; flairs := Some [];
                      title := Some EmptyString; picture := Some EmptyString;
                      github := Some EmptyString; facebook := Some EmptyString;
                      instagram := Some EmptyString |}]> (Profiles empty_world))
           empty_world)).
Proof.
  assert (¬ registered empty_world "jdoe") as Hfree by apply map_Exists_empty.
  split; (split; [first [reflexivity | assumption]|]).
  - exact (proj1 (proj2 C4_define_defaults) (only_username undefined) empty_world eq_refl).
  - exact (proj2 (proj2 C4_define_defaults) "jdoe" empty_world Hfree).
Defined.

(** Against C4 as worded: were [username] to default to the empty string, the
    call without a username would behave as the call with the empty username;
    on the empty collections the first fails and the second succeeds. *)
Lemma C4_counterexample :
  run (define (only_username undefined)) empty_world = (Error MatchError, empty_world) ∧
  run (define (only_username undefined)) empty_world ≠
  run (define (spec_defaults (only_username undefined))) empty_world.
Proof. split; [reflexivity|]. vm_compute. intros H. discriminate H. Qed.

(** C7. A call of [define] that fails, on the flair collection or on the
    profile collection, leaves every collection as it was. *)
Theorem C7_failed_define_changes_nothing :
  (∀ (a : FlairCollection.definition) c e c',
     run (FlairCollection.define a) c = (Error e, c') → c' = c) ∧
  (∀ a w e w', run (define a) w = (Error e, w') → w' = w).
Proof.
  split.
  - intros a c e c' [->|(n & s & _ & Hr & _)]%define_step; [done | discriminate Hr].
  - intros a w e w'. destruct (arg_username a) as [|u] eqn:Hu.
    + rewrite define_absent_username by done. congruence.
    + rewrite (define_run a u w Hu). simpl.
      repeat match goal with
             | |- context [if ?b then _ else _] => destruct b
             | |- context [match ?r with Ok _ => _ | Error _ => _ end] => destruct r
             end; congruence.
Qed.

Lemma C7_witness :
  let c : FlairCollection.collection :=
    {[0 := {| FlairCollection.name := "AI"; FlairCollection.description := Some "x" |}]} in
  let a : FlairCollection.definition :=
    {| FlairCollection.arg_name := given "AI";
       FlairCollection.arg_description := given "y" |} in
  let err := MeteorError "AI is previously defined in another FlairCollection" in
  let w := {| Interests := ∅; Flairs := c; Profiles := ∅ |} in
  let b := with_interests ["AI"] (only_username (given "jdoe")) in
  (run (FlairCollection.define a) c = (Error err, c) ∧ c = c) ∧
  (run (define b) w = (Error (NotDefined (ByName "AI")), w) ∧ w = w).
Proof.
  intros c a err w b.
  assert (run (FlairCollection.define a) c = (Error err, c)) as Hflair
    by (vm_compute; reflexivity).
  assert (run (define b) w = (Error (NotDefined (ByName "AI")), w)) as Hprofile
    by (vm_compute; reflexivity).
  split; (split; [assumption|]).
  - exact (proj1 C7_failed_define_changes_nothing a c err c Hflair).
  - exact (proj2 C7_failed_define_changes_nothing b w _ w Hprofile).
Defined.
End ProfileStore.

(** * More facts about the tag store *)

Section MoreFlairFacts.
Import BaseCollection FlairCollection.
Implicit Types (c : collection) (i j : docID) (n s : string).

Lemma run_mapA_cons {S A B} (f : A → M S B) x l (st : S) :
  run (mapA f (x :: l)) st =
  match run (f x) st with
  | (Ok y, st') =>
      match run (mapA f l) st' with
      | (Ok ys, st'') => (Ok (y :: ys), st'')
      | (Error e, st'') => (Error e, st'')
      end
  | (Error e, st') => (Error e, st')
  end.
Proof.
  simpl. rewrite run_bind. destruct (run (f x) st) as [[y|e] st']; [|done].
  rewrite run_bind. by destruct (run (mapA f l) st') as [[ys|e] st''].
Qed.

Lemma findName_inv c i n c' :
  run (findName i) c = (Ok n, c') → ∃ d, c !! i = Some d ∧ name d = n.
Proof.
  destruct (c !! i) as [d|] eqn:Hi.
  - rewrite (findName_defined c i d Hi). intros [= <- _]. by exists d.
  - by rewrite (findName_undefined c i Hi).
Qed.

Lemma findID_inv c n i c' :
  run (findID n) c = (Ok i, c') → ∃ d, c !! i = Some d ∧ name d = n.
Proof.
  destruct (decide (named name c n)) as [Hn|Hn].
  - destruct (findID_named c n Hn) as (j & d & -> & Hj & Hd).
    intros [= <- _]. by exists d.
  - by rewrite (findID_unnamed c n Hn).
Qed.

Lemma mapA_findName_Forall2 c ids names :
  Forall2 (λ i n, ∃ d, c !! i = Some d ∧ name d = n) ids names →
  run (mapA findName ids) c = (Ok names, c).
Proof.
  induction 1 as [|i n ids names (d & Hi & <-) _ IH]; [done|].
  by rewrite run_mapA_cons, (findName_defined c i d Hi), IH.
Qed.

Lemma dumpOne_stored c i t :
  c !! i = Some t →
  run (dumpOne i) c =
  (Ok {| arg_name := given (name t);
         arg_description := match description t with
                            | Some s => given s
                            | None => undefined
                            end |}, c).
Proof. intros Hi. unfold dumpOne. by rewrite run_bind, findDoc_ById, Hi. Qed.

Lemma dumpOne_missing c i :
  c !! i = None → run (dumpOne i) c = (Error (NotDefined (ById i)), c).
Proof. intros Hi. unfold dumpOne. by rewrite run_bind, findDoc_ById, Hi. Qed.

(** A call of [define] leaves the stored documents where they are. *)
Lemma define_subseteq a c r c' : run (define a) c = (r, c') → c ⊆ c'.
Proof.
  intros [->|(n & s & _ & _ & ->)]%define_step; [done|].
  apply insert_subseteq, (insert_fresh {| name := n; description := Some s |}).
Qed.

Lemma reachable_described c :
  reachable c → map_Forall (λ _ d, is_Some (description d)) c.
Proof.
  induction 1 as [|c a r c' _ IH Hrun]; [apply map_Forall_empty|].
  apply define_step in Hrun as [->|(n & s & _ & _ & ->)]; [done|].
  apply map_Forall_insert_2; [by eexists | done].
Qed.

Lemma reachable_unique c : reachable c → unique_names name c.
Proof.
  induction 1 as [|c a r c' _ IH Hrun].
  - intros i j d d' Hi. by rewrite lookup_empty in Hi.
  - by eapply define_preserves_unique.
Qed.

Lemma reachable_two_tags : reachable two_tags.
Proof.
  apply (reachable_define {[0 := {| name := "AI"; description := Some "x" |}]}
           {| arg_name := given "ML"; arg_description := given "y" |} (Ok 1));
    [|vm_compute; reflexivity].
  apply (reachable_define ∅ {| arg_name := given "AI"; arg_description := given "x" |}
           (Ok 0)); [|vm_compute; reflexivity].
  apply reachable_empty.
Qed.
End MoreFlairFacts.

(** * Further properties of the tag store *)

Section TagStoreExtras.
Import BaseCollection FlairCollection.
Implicit Types (c : collection) (i j : docID) (n s : string).

(** X1. [findNames] of a list returns [names] exactly when the identifiers are
    all stored and [names] are, position by position, the names stored under
    them. *)
Theorem findNames_succeeds_iff c ids names :
  run (findNames (given ids)) c = (Ok names, c) ↔
  Forall2 (λ i n, ∃ d, c !! i = Some d ∧ name d = n) ids names.
Proof.
  change (run (findNames (given ids)) c) with (run (mapA findName ids) c).
  split; [|apply mapA_findName_Forall2].
  revert names. induction ids as [|i ids IH]; intros names.
  - intros [= <-]. constructor.
  - rewrite run_mapA_cons.
    destruct (run (findName i) c) as [[n|e] c1] eqn:Hi; [|done].
    pose proof (readonly_findName i c) as Hc. rewrite Hi in Hc. simpl in Hc. subst c1.
    destruct (run (mapA findName ids) c) as [[ns|e] c1] eqn:Hids; [|done].
    intros [= <- ->]. constructor; [by eapply findName_inv | by apply IH].
Qed.

(** X2. [findNames] stops at the first identifier that is not stored and reports
    that identifier, whatever follows it in the list. *)
Theorem findNames_first_failure c good i rest :
  Forall (λ j, is_Some (c !! j)) good → c !! i = None →
  run (findNames (given (good ++ i :: rest))) c = (Error (NotDefined (ById i)), c).
Proof.
  change (run (findNames (given ?l)) c) with (run (mapA findName l) c).
  intros Hgood Hi. induction Hgood as [|j good [d Hj] _ IH]; simpl app.
  - by rewrite run_mapA_cons, (findName_undefined c i Hi).
  - by rewrite run_mapA_cons, (findName_defined c j d Hj), IH.
Qed.

Lemma findNames_first_failure_witness :
  Forall (λ j, is_Some (two_tags !! j)) [1; 0] ∧ two_tags !! 7 = None ∧
  run (findNames (given ([1; 0] ++ 7 :: [0; 9]))) two_tags =
  (Error (NotDefined (ById 7)), two_tags).
Proof.
  assert (Forall (λ j, is_Some (two_tags !! j)) [1; 0]) as Hgood
    by (repeat constructor; eexists; reflexivity).
  split; [exact Hgood|]. split; [reflexivity|].
  exact (findNames_first_failure two_tags [1; 0] 7 [0; 9] Hgood eq_refl).
Defined.





(** X5. [assertNames] accepts and refuses exactly the lists [findIDs] does, with
    the same failure; it only drops the identifiers. *)
Theorem assertNames_as_findIDs c names :
  run (assertNames names) c =
  match run (findIDs (given names)) c with
  | (Ok _, c') => (Ok tt, c')
  | (Error e, c') => (Error e, c')
  end.
Proof.
  change (run (findIDs (given names)) c) with (run (mapA findID names) c).
  unfold assertNames. revert c. induction names as [|n names IH]; intros c; [done|].
  rewrite run_mapA_cons. cbn [each]. rewrite run_bind.
  unfold assertName at 1, findID at 1. rewrite !run_bind.
  destruct (run (findDoc name (ByName n)) c) as [[d|e] c1]; [|done].
  unfold run at 1 3, ret. fold (run (each names (λ n, assertName n)) c1).
  fold (run (mapA findID names) c1).
  rewrite IH. by destruct (run (mapA findID names) c1) as [[ids|e] c2].
Qed.
End TagStoreExtras.

(** * Further properties of [define] and [dumpOne] on tags *)

Section TagDefineExtras.
Import BaseCollection FlairCollection.
Implicit Types (c : collection) (i j : docID) (n s : string).

(** X6. [define] throws the match error exactly when the name or the description
    is missing, also when the name is already stored, since the type checks
    come first; it succeeds exactly when both are strings and no stored tag
    carries the name. *)
Theorem define_outcomes a c :
  (run (define a) c = (Error MatchError, c) ↔
   arg_name a = undefined ∨ arg_description a = undefined) ∧
  ((∃ i c', run (define a) c = (Ok i, c')) ↔
   ∃ n s, arg_name a = given n ∧ arg_description a = given s ∧ ¬ named name c n).
Proof.
  destruct a as [[|n] [|s]]; simpl.
  1-3: rewrite ?define_absent_name, ?define_absent_description;
    (split; [split; [by auto | done]|]);
    (split; [by intros (? & ? & ?) | by intros (? & ? & ? & ? & ?)]).
  rewrite define_strings. destruct (0 <? _)%nat eqn:E.
  - apply (count_named name) in E. split.
    + split; [done | by intros [|]].
    + split; [by intros (? & ? & ?)|]. by intros (? & ? & [= <-] & _ & []).
  - apply (count_unnamed name) in E. split.
    + split; [done | by intros [|]].
    + split; [by exists n, s | by eexists _, _].
Qed.

(** X8. After a call of [define], successful or not, every identifier that
    [findName] resolved resolves to the same name, and in a store with unique
    names every name that [findID] resolved resolves to the same identifier. *)
Theorem lookups_survive_define a c r c' :
  run (define a) c = (r, c') →
  (∀ i n, run (findName i) c = (Ok n, c) → run (findName i) c' = (Ok n, c')) ∧
  (unique_names name c →
   ∀ n i, run (findID n) c = (Ok i, c) → run (findID n) c' = (Ok i, c')).
Proof.
  intros Hrun. pose proof (define_subseteq a c r c' Hrun) as Hsub. split.
  - intros i n (d & Hi & <-)%findName_inv.
    apply findName_defined. by eapply lookup_weaken.
  - intros Hu n i (d & Hi & <-)%findID_inv.
    apply findID_unique; [by eapply define_preserves_unique|].
    by eapply lookup_weaken.
Qed.

Lemma lookups_survive_define_witness :
  let a := {| arg_name := given "Go"; arg_description := given "z" |} in
  let c' := <[2 := {| name := "Go"; description := Some "z" |}]> two_tags in
  run (define a) two_tags = (Ok 2, c') ∧
  (run (findName 1) two_tags = (Ok "ML", two_tags) ∧
   run (findName 1) c' = (Ok "ML", c')) ∧
  (unique_names name two_tags ∧ run (findID "AI") two_tags = (Ok 0, two_tags) ∧
   run (findID "AI") c' = (Ok 0, c')).
Proof.
  intros a c'.
  assert (run (define a) two_tags = (Ok 2, c')) as Hrun by (vm_compute; reflexivity).
  assert (run (findName 1) two_tags = (Ok "ML", two_tags)) as Hname
    by (vm_compute; reflexivity).
  assert (run (findID "AI") two_tags = (Ok 0, two_tags)) as Hid
    by (vm_compute; reflexivity).
  pose proof (reachable_unique two_tags reachable_two_tags) as Hu.
  split; [exact Hrun|]. split; (split; [assumption|]).
  - exact (proj1 (lookups_survive_define a two_tags (Ok 2) c' Hrun) 1 "ML" Hname).
  - split; [exact Hid|].
    exact (proj2 (lookups_survive_define a two_tags (Ok 2) c' Hrun) Hu "AI" 0 Hid).
Defined.

(** X9. Every tag of a store that calls of [define] built has a description: the
    optional key of the schema is never left out by [define]. *)
Theorem reachable_tags_have_descriptions c i t :
  reachable c → c !! i = Some t → ∃ s, description t = Some s.
Proof. intros Hc%reachable_described Hi. exact (Hc i t Hi). Qed.

Lemma reachable_tags_have_descriptions_witness :
  reachable two_tags ∧
  two_tags !! 1 = Some {| name := "ML"; description := Some "y" |} ∧
  ∃ s, description {| name := "ML"; description := Some "y" |} = Some s.
Proof.
  split; [exact reachable_two_tags|]. split; [reflexivity|].
  exact (reachable_tags_have_descriptions two_tags 1 _ reachable_two_tags eq_refl).
Defined.

(** X10. In a store that calls of [define] built, what [dumpOne] returns for a
    stored tag is always accepted by [define] under a name no stored tag
    carries, and the new tag has the description of the old one. *)
Theorem reachable_dumpOne_define c i t n :
  reachable c → c !! i = Some t → ¬ named name c n →
  ∃ s, description t = Some s ∧
    run (d <- dumpOne i ;;
         define {| arg_name := given n; arg_description := arg_description d |}) c =
    (Ok (fresh (dom c)),
     <[fresh (dom c) := {| name := n; description := Some s |}]> c).
Proof.
  intros Hc Hi Hn. destruct (reachable_described c Hc i t Hi) as [s Hs].
  exists s. split; [done|].
  rewrite run_bind, (dumpOne_stored c i t Hi), Hs. simpl.
  rewrite define_strings. by apply (count_unnamed name) in Hn as ->.
Qed.

Lemma reachable_dumpOne_define_witness :
  reachable two_tags ∧
  two_tags !! 0 = Some {| name := "AI"; description := Some "x" |} ∧
  ¬ named name two_tags "Go" ∧
  ∃ s, description {| name := "AI"; description := Some "x" |} = Some s ∧
    run (d <- dumpOne 0 ;;
         define {| arg_name := given "Go"; arg_description := arg_description d |})
        two_tags =
    (Ok (fresh (dom two_tags)),
     <[fresh (dom two_tags) := {| name := "Go"; description := Some s |}]> two_tags).
Proof.
  assert (¬ named name two_tags "Go") as Hn by (apply (bool_decide_unpack _); vm_compute; exact I).
  split; [exact reachable_two_tags|]. split; [reflexivity|]. split; [exact Hn|].
  exact (reachable_dumpOne_define two_tags 0 _ "Go" reachable_two_tags eq_refl Hn).
Defined.

(** X11. What [define] stores, [dumpOne] gives back: dumping the identifier a
    successful [define] returned yields the name and the description the call
    was given. *)
Theorem dumpOne_after_define c n s :
  ¬ named name c n →
  let a := {| arg_name := given n; arg_description := given s |} in
  ∃ c', run (i <- define a ;; dumpOne i) c = (Ok a, c') ∧
        run (define a) c = (Ok (fresh (dom c)), c').
Proof.
  intros Hn a. exists (<[fresh (dom c) := {| name := n; description := Some s |}]> c).
  unfold a. rewrite run_bind, define_strings.
  apply (count_unnamed name) in Hn as ->. split; [|done].
  by rewrite (dumpOne_stored _ _ {| name := n; description := Some s |})
    by apply lookup_insert_eq.
Qed.

Lemma dumpOne_after_define_witness :
  ¬ named name two_tags "Go" ∧
  let a := {| arg_name := given "Go"; arg_description := given "z" |} in
  ∃ c', run (i <- define a ;; dumpOne i) two_tags = (Ok a, c') ∧
        run (define a) two_tags = (Ok (fresh (dom two_tags)), c').
Proof.
  assert (¬ named name two_tags "Go") as Hn by (apply (bool_decide_unpack _); vm_compute; exact I).
  split; [exact Hn|]. exact (dumpOne_after_define two_tags "Go" "z" Hn).
Defined.

(** X12. None of the lookups writes: [findName], [findNames], [findID],
    [findIDs], [assertName], [assertNames] and [dumpOne] leave the collection
    as it was, whether they return or throw. *)
Theorem lookups_are_readonly :
  (∀ i, readonly (findName i)) ∧ (∀ ids, readonly (findNames ids)) ∧
  (∀ n, readonly (findID n)) ∧ (∀ names, readonly (findIDs names)) ∧
  (∀ n, readonly (assertName n)) ∧ (∀ names, readonly (assertNames names)) ∧
  (∀ i, readonly (dumpOne i)).
Proof.
  repeat split; intros x.
  - apply readonly_findName.
  - apply readonly_findNames.
  - apply readonly_findID.
  - apply readonly_findIDs.
  - unfold assertName. eauto with readonly.
  - apply readonly_assertNames.
  - apply readonly_dumpOne.
Qed.
End TagDefineExtras.

(** * More facts about the profile store *)

Section MoreProfileFacts.
Import BaseCollection ProfileCollection.
Implicit Types (w : world) (a : definition) (u : string).

(** A call of [define] either changes nothing and fails, or passes every
    test and adds the one record. *)
Lemma Profiles_define_step a w r w' :
  run (define a) w = (r, w') →
  (w' = w ∧ ∃ e, r = Error e) ∨
  ∃ u, arg_username a = given u ∧ ¬ registered w u ∧
    Forall (named InterestCollection.name (Interests w)) (default_to [] (arg_interests a)) ∧
    NoDup (default_to [] (arg_interests a)) ∧
    Forall (named FlairCollection.name (Flairs w)) (default_to [] (arg_flairs a)) ∧
    NoDup (default_to [] (arg_flairs a)) ∧
    r = Ok (fresh (dom (Profiles w))) ∧
    w' = set_Profiles (<[fresh (dom (Profiles w)) := stored_profile a u]> (Profiles w)) w.
Proof.
  destruct (arg_username a) as [|u] eqn:Hu.
  { rewrite define_absent_username by done. intros [= <- <-]. left. eauto. }
  rewrite (define_run a u w Hu). simpl.
  destruct (0 <? _)%nat eqn:Hreg; [intros [= <- <-]; left; eauto|].
  apply count_unregistered in Hreg.
  destruct (decide (Forall (named InterestCollection.name (Interests w))
                      (default_to [] (arg_interests a)))) as [HI|HI]; cycle 1.
  { apply Interests_assertNames_unnamed in HI as (n & _ & _ & ->).
    intros [= <- <-]. left. eauto. }
  rewrite (Interests_assertNames_named w _ HI).
  destruct (decide (NoDup (default_to [] (arg_interests a)))) as [HIn|HIn]; cycle 1.
  { apply duplicates_test in HIn as ->. intros [= <- <-]. left. eauto. }
  rewrite (no_duplicates _ HIn).
  destruct (decide (Forall (named FlairCollection.name (Flairs w))
                      (default_to [] (arg_flairs a)))) as [HF|HF]; cycle 1.
  { apply Flairs_assertNames_unnamed in HF as (n & _ & _ & ->).
    intros [= <- <-]. left. eauto. }
  rewrite (Flairs_assertNames_named w _ HF).
  destruct (decide (NoDup (default_to [] (arg_flairs a)))) as [HFn|HFn]; cycle 1.
  { apply duplicates_test in HFn as ->. intros [= <- <-]. left. eauto. }
  rewrite (no_duplicates _ HFn). intros [= <- <-]. right. exists u. done.
Qed.

Lemma Flairs_define_step (a : FlairCollection.definition) w r w' :
  run (onFlairs (FlairCollection.define a)) w = (r, w') →
  Interests w' = Interests w ∧ Profiles w' = Profiles w ∧ Flairs w ⊆ Flairs w'.
Proof.
  unfold onFlairs, zoom, run.
  destruct (FlairCollection.define a (Flairs w)) as [r' c'] eqn:Hrun.
  intros [= <- <-]. simpl. repeat split.
  by eapply define_subseteq.
Qed.

Lemma named_weaken {D} (name_of : D → string) (c c' : gmap docID D) n :
  c ⊆ c' → named name_of c n → named name_of c' n.
Proof.
  intros Hsub (i & d & Hi & Hd). exists i, d. split; [|done].
  by eapply lookup_weaken.
Qed.

Lemma run_dumpOne_stored w i p :
  Profiles w !! i = Some p →
  run (dumpOne i) w =
  (Ok {| arg_firstName := read_key (firstName p); arg_lastName := read_key (lastName p);
         arg_username := given (username p); arg_bio := read_key (bio p);
         arg_interests := read_key (interests p); arg_flairs := read_key (flairs p);
         arg_picture := read_key (picture p); arg_title := read_key (title p);
         arg_github := read_key (github p); arg_facebook := read_key (facebook p);
         arg_instagram := read_key (instagram p) |}, w).
Proof.
  intros Hi. unfold dumpOne, this. rewrite run_bind.
  rewrite run_zoom_readonly by (apply set_Profiles_id || apply readonly_findDoc).
  by rewrite findDoc_ById, Hi.
Qed.

Lemma reachable_jdoe_world : reachable_world jdoe_world.
Proof.
  apply (reachable_Profiles_define sample_world jdoe (Ok 0));
    [by apply reachable_start | vm_compute; reflexivity].
Qed.
End MoreProfileFacts.

(** * Further properties of the profile store *)

Section ProfileStoreExtras.
Import BaseCollection ProfileCollection.
Implicit Types (w : world) (a : definition) (u : string).



(** X14. [define] writes to the profile collection only: the interests and the
    flairs are as before, stored profiles stay where they are, and a
    successful call adds exactly the new record under an unused identifier. *)
Theorem Profiles_define_frame a w r w' :
  run (define a) w = (r, w') →
  Interests w' = Interests w ∧ Flairs w' = Flairs w ∧ Profiles w ⊆ Profiles w' ∧
  ∀ i, r = Ok i →
    Profiles w !! i = None ∧
    ∃ u, arg_username a = given u ∧ Profiles w' = <[i := stored_profile a u]> (Profiles w).
Proof.
  intros [[-> [e ->]]|(u & Hu & _ & _ & _ & _ & _ & -> & ->)]%Profiles_define_step.
  - by repeat split.
  - pose proof (insert_fresh (stored_profile a u) (Profiles w)) as Hnew.
    simpl. split; [done|]. split; [done|]. split; [by apply insert_subseteq|].
    intros i [= <-]. split; [done|]. by exists u.
Qed.

Lemma Profiles_define_frame_witness :
  run (define jdoe) sample_world = (Ok 0, jdoe_world) ∧
  Interests jdoe_world = Interests sample_world ∧
  Flairs jdoe_world = Flairs sample_world ∧
  Profiles sample_world ⊆ Profiles jdoe_world ∧
  ∀ i, Ok 0 = Ok i →
    Profiles sample_world !! i = None ∧
    ∃ u, arg_username jdoe = given u ∧
         Profiles jdoe_world = <[i := stored_profile jdoe u]> (Profiles sample_world).
Proof.
  assert (run (define jdoe) sample_world = (Ok 0, jdoe_world)) as Hrun
    by (vm_compute; reflexivity).
  split; [exact Hrun|].
  exact (Profiles_define_frame jdoe sample_world (Ok 0) jdoe_world Hrun).
Defined.

(** X15. In every world that calls of [Flairs.define] and [Profiles.define]
    produce from a world without profiles, no two profiles have the same
    username. *)
Theorem reachable_unique_usernames w :
  reachable_world w → unique_names username (Profiles w).
Proof.
  induction 1 as [w Hw|w a r w' _ IH Hrun|w a r w' _ IH Hrun].
  - intros i j d d' Hi. by rewrite Hw, lookup_empty in Hi.
  - apply Flairs_define_step in Hrun as (_ & -> & _). done.
  - apply Profiles_define_step in Hrun
      as [[-> _]|(u & _ & Hreg & _ & _ & _ & _ & _ & ->)]; [done|].
    pose proof (insert_fresh (stored_profile a u) (Profiles w)) as Hnew. simpl.
    intros i j d d' [[<- <-]|[? Hi]]%lookup_insert_Some
      [[<- <-]|[? Hj]]%lookup_insert_Some Hname; simpl in *.
    + done.
    + destruct Hreg. by exists j, d'.
    + destruct Hreg. by exists i, d.
    + by eapply IH.
Qed.

Lemma reachable_unique_usernames_witness :
  reachable_world two_profiles_world ∧
  Profiles two_profiles_world !! 0 = Some (stored_profile jdoe "jdoe") ∧
  Profiles two_profiles_world !! 1 =
    Some (stored_profile (only_username (given "asmith")) "asmith") ∧
  run (define jdoe) two_profiles_world =
    (Error (MeteorError "jdoe is previously defined in another Profile"),
     two_profiles_world) ∧
  unique_names username (Profiles two_profiles_world).
Proof.
  assert (run (define jdoe) two_profiles_world =
          (Error (MeteorError "jdoe is previously defined in another Profile"),
           two_profiles_world)) as Hdup by (vm_compute; reflexivity).
  assert (reachable_world two_profiles_world) as Hreach.
  { apply (reachable_Profiles_define two_profiles_world jdoe _ _) with (2 := Hdup).
    apply (reachable_Profiles_define jdoe_world (only_username (given "asmith")) (Ok 1));
      [|vm_compute; reflexivity].
    apply (reachable_Profiles_define sample_world jdoe (Ok 0));
      [|vm_compute; reflexivity].
    by apply reachable_start. }
  split; [exact Hreach|]. split; [reflexivity|]. split; [reflexivity|].
  split; [exact Hdup|].
  exact (reachable_unique_usernames two_profiles_world Hreach).
Defined.



(** X17. Every profile of such a world has all eleven keys: [define] stores its
    defaults rather than leaving an optional key out. *)
Theorem reachable_profiles_are_complete w i p :
  reachable_world w → Profiles w !! i = Some p →
  is_Some (firstName p) ∧ is_Some (lastName p) ∧ is_Some (bio p) ∧
  is_Some (interests p) ∧ is_Some (flairs p) ∧ is_Some (title p) ∧
  is_Some (picture p) ∧ is_Some (github p) ∧ is_Some (facebook p) ∧
  is_Some (instagram p).
Proof.
  intros Hw. revert i p.
  induction Hw as [w Hw|w a r w' _ IH Hrun|w a r w' _ IH Hrun]; intros i p.
  - by rewrite Hw, lookup_empty.
  - apply Flairs_define_step in Hrun as (_ & -> & _). apply IH.
  - apply Profiles_define_step in Hrun
      as [[-> _]|(u & _ & _ & _ & _ & _ & _ & _ & ->)]; [apply IH|].
    simpl. intros [[_ <-]|[_ Hi]]%lookup_insert_Some; [|by eapply IH].
    simpl. repeat split; by eexists.
Qed.

Lemma reachable_profiles_are_complete_witness :
  reachable_world jdoe_world ∧
  Profiles jdoe_world !! 0 = Some (stored_profile jdoe "jdoe") ∧
  is_Some (firstName (stored_profile jdoe "jdoe")) ∧
  is_Some (lastName (stored_profile jdoe "jdoe")) ∧
  is_Some (bio (stored_profile jdoe "jdoe")) ∧
  is_Some (interests (stored_profile jdoe "jdoe")) ∧
  is_Some (flairs (stored_profile jdoe "jdoe")) ∧
  is_Some (title (stored_profile jdoe "jdoe")) ∧
  is_Some (picture (stored_profile jdoe "jdoe")) ∧
  is_Some (github (stored_profile jdoe "jdoe")) ∧
  is_Some (facebook (stored_profile jdoe "jdoe")) ∧
  is_Some (instagram (stored_profile jdoe "jdoe")).
Proof.
  split; [exact reachable_jdoe_world|]. split; [reflexivity|].
  exact (reachable_profiles_are_complete jdoe_world 0 _ reachable_jdoe_world eq_refl).
Defined.
End ProfileStoreExtras.

(** * [dumpOne] on profiles *)

Section ProfileDumpExtras.
Import BaseCollection ProfileCollection.
Implicit Types (w : world) (a : definition) (u : string).

Lemma withDefault_given {A} (d : A) v : withDefault d v = given (default_to d v).
Proof. by destruct v. Qed.

(** X18. What [dumpOne] returns for a stored profile is refused by [define] in
    the same world: the username it carries is the registered one. *)
Theorem Profiles_define_of_dumpOne w i p :
  Profiles w !! i = Some p →
  run (d <- dumpOne i ;; define d) w =
  (Error (MeteorError (username p +:+ " is previously defined in another Profile")), w).
Proof.
  intros Hi. rewrite run_bind, (run_dumpOne_stored w i p Hi). cbv beta iota.
  match goal with
  | |- run (define ?d) w = _ => rewrite (define_run d (username p) w eq_refl)
  end.
  simpl.
  assert (registered w (username p)) as ->%count_registered by by exists i, p.
  done.
Qed.

Lemma Profiles_define_of_dumpOne_witness :
  Profiles jdoe_world !! 0 = Some (stored_profile jdoe "jdoe") ∧
  run (d <- dumpOne 0 ;; define d) jdoe_world =
  (Error (MeteorError "jdoe is previously defined in another Profile"), jdoe_world).
Proof.
  split; [reflexivity|].
  exact (Profiles_define_of_dumpOne jdoe_world 0 (stored_profile jdoe "jdoe") eq_refl).
Defined.

(** X19. After a successful [define], [dumpOne] of the new identifier returns the
    object the call was given with the defaults filled in, and [define] of
    that object in the world before the call does what the call did. *)
Theorem Profiles_dumpOne_after_define a w i w' :
  run (define a) w = (Ok i, w') →
  run (dumpOne i) w' = (Ok (code_defaults a), w') ∧
  run (define (code_defaults a)) w = (Ok i, w').
Proof.
  intros Hrun. pose proof Hrun as Hstep.
  apply Profiles_define_step in Hstep
    as [[_ [e [=]]]|(u & Hu & _ & _ & _ & _ & _ & [= ->] & ->)].
  split.
  - rewrite (run_dumpOne_stored _ _ (stored_profile a u)) by apply lookup_insert_eq.
    unfold code_defaults. simpl. by rewrite Hu, !withDefault_given.
  - rewrite <- Hrun.
    rewrite (define_run a u w Hu), (define_run (code_defaults a) u w Hu).
    unfold stored_profile. simpl. by rewrite !default_withDefault.
Qed.

Lemma Profiles_dumpOne_after_define_witness :
  run (define jdoe) sample_world = (Ok 0, jdoe_world) ∧
  run (dumpOne 0) jdoe_world = (Ok (code_defaults jdoe), jdoe_world) ∧
  run (define (code_defaults jdoe)) sample_world = (Ok 0, jdoe_world).
Proof.
  assert (run (define jdoe) sample_world = (Ok 0, jdoe_world)) as Hrun
    by (vm_compute; reflexivity).
  split; [exact Hrun|].
  exact (Profiles_dumpOne_after_define jdoe sample_world 0 jdoe_world Hrun).
Defined.
End ProfileDumpExtras.

(** * How the two stores compose *)

Section CompositionExtras.
Import BaseCollection.
Implicit Types (w : ProfileCollection.world) (c : FlairCollection.collection).

(** X7. A call of [Flairs.define] keeps the stored tags where they are, and a
    successful one adds exactly the tag it was given, with its description
    present, under an identifier that was unused. *)
Theorem Flairs_define_frame (a : FlairCollection.definition) c r c' :
  run (FlairCollection.define a) c = (r, c') →
  c ⊆ c' ∧
  ∀ i, r = Ok i →
    c !! i = None ∧
    ∃ n s, FlairCollection.arg_name a = given n ∧
           FlairCollection.arg_description a = given s ∧
           c' = <[i := {| FlairCollection.name := n;
                          FlairCollection.description := Some s |}]> c.
Proof.
  intros Hrun. split; [by eapply define_subseteq|].
  destruct a as [[|n] [|s]].
  1-3: rewrite ?define_absent_name, ?define_absent_description in Hrun;
    injection Hrun as <- <-; by intros i [=].
  rewrite define_strings in Hrun. destruct (0 <? _)%nat.
  - injection Hrun as <- <-. by intros i [=].
  - injection Hrun as <- <-. intros i [= <-].
    split; [apply (insert_fresh {| FlairCollection.name := n;
                                   FlairCollection.description := Some s |})|].
    by exists n, s.
Qed.

Lemma Flairs_define_frame_witness :
  let a := {| FlairCollection.arg_name := given "Go";
              FlairCollection.arg_description := given "z" |} in
  let c' := <[2 := {| FlairCollection.name := "Go";
                      FlairCollection.description := Some "z" |}]> two_tags in
  run (FlairCollection.define a) two_tags = (Ok 2, c') ∧
  two_tags ⊆ c' ∧
  ∀ i, Ok 2 = Ok i →
    two_tags !! i = None ∧
    ∃ n s, FlairCollection.arg_name a = given n ∧
           FlairCollection.arg_description a = given s ∧
           c' = <[i := {| FlairCollection.name := n;
                          FlairCollection.description := Some s |}]> two_tags.
Proof.
  intros a c'.
  assert (run (FlairCollection.define a) two_tags = (Ok 2, c')) as Hrun
    by (vm_compute; reflexivity).
  split; [exact Hrun|]. exact (Flairs_define_frame a two_tags (Ok 2) c' Hrun).
Defined.

(** X20. Defining more tags never makes a profile definition fail: an object
    [Profiles.define] accepts in a world is accepted, under the same
    identifier, after any call of [Flairs.define]. *)
Theorem more_tags_keep_profiles_definable
    (b : FlairCollection.definition) (a : ProfileCollection.definition) w r w1 i w' :
  run (ProfileCollection.onFlairs (FlairCollection.define b)) w = (r, w1) →
  run (ProfileCollection.define a) w = (Ok i, w') →
  ∃ w1', run (ProfileCollection.define a) w1 = (Ok i, w1').
Proof.
  intros (HI & HP & HF)%Flairs_define_step
    [[_ [e [=]]]|(u & Hu & Hreg & Hint & Hind & Hfl & Hfld & [= ->] & _)]%Profiles_define_step.
  assert (¬ registered w1 u) as Hreg1%count_unregistered.
  { unfold registered. by rewrite HP. }
  rewrite <- HI in Hint.
  assert (Forall (named FlairCollection.name (ProfileCollection.Flairs w1))
            (default_to [] (ProfileCollection.arg_flairs a))) as Hfl1.
  { eapply Forall_impl; [exact Hfl|]. intros n. by apply named_weaken. }
  rewrite (define_run a u w1 Hu). simpl.
  rewrite Hreg1, (Interests_assertNames_named w1 _ Hint), (no_duplicates _ Hind),
    (Flairs_assertNames_named w1 _ Hfl1), (no_duplicates _ Hfld), HP.
  by eexists.
Qed.

Lemma more_tags_keep_profiles_definable_witness :
  let b := {| FlairCollection.arg_name := given "Go";
              FlairCollection.arg_description := given "z" |} in
  let w1 := ProfileCollection.set_Flairs
              (<[2 := {| FlairCollection.name := "Go";
                         FlairCollection.description := Some "z" |}]> two_tags)
              sample_world in
  run (ProfileCollection.onFlairs (FlairCollection.define b)) sample_world = (Ok 2, w1) ∧
  run (ProfileCollection.define jdoe) sample_world = (Ok 0, jdoe_world) ∧
  ∃ w1', run (ProfileCollection.define jdoe) w1 = (Ok 0, w1').
Proof.
  intros b w1.
  assert (run (ProfileCollection.onFlairs (FlairCollection.define b)) sample_world
          = (Ok 2, w1)) as Hb by (vm_compute; reflexivity).
  assert (run (ProfileCollection.define jdoe) sample_world = (Ok 0, jdoe_world)) as Ha
    by (vm_compute; reflexivity).
  split; [exact Hb|]. split; [exact Ha|].
  exact (more_tags_keep_profiles_definable b jdoe sample_world (Ok 2) w1 0 jdoe_world Hb Ha).
Defined.
End CompositionExtras.
